(** * fresj cookies middleware: signed / unsigned cookie partitioning

    A shallow embedding of [src/cookies/mod.ts] (the Fresh middleware that
    parses the request cookies into a signed and an unsigned record and
    the helpers that write and delete cookies), followed by the
    properties of the specification that were checked against it.

    Modelling choices.
    - JavaScript strings are [string]; [startsWith] and [substring] are
      the one-argument forms the source uses.
    - The two records the middleware builds ([unsigned], [signed]) are
      plain objects [{}]: their own string keys are a finite map
      [gmap string string], and what they inherit from
      [Object.prototype] is modelled beside it.  [record[key] = value]
      is [js_set]: on a host whose [Object.prototype] has the
      [__proto__] accessor, assigning a string to the key [__proto__]
      stores nothing.  [name in record] is [js_in]: it also answers true
      for the names every object inherits.  The host is a parameter
      ([JsHost]): Node has the accessor, Deno deletes it by default.
      The record returned by [getCookies] is only ever iterated with
      [Object.entries], so it is kept as its list of entries, with
      distinct names.
    - The per-request state bag [ctx.state] is a record of optional
      slots, one per symbol key the module uses; [None] is an absent key.
    - A thrown [Error] is the [Throw] case of [Result].
    - [Headers] is the list of [Set-Cookie] entries appended so far.
    - [await] is sequencing: every awaited call is a total function. *)

From Stdlib Require Import String Ascii List Bool ZArith.
From stdpp Require Import base option list strings gmap.

Local Open Scope string_scope.

(** ** JavaScript string primitives used by the module *)

(** [s.startsWith(pre)] *)
Definition startsWith (pre s : string) : bool := String.prefix pre s.

(** [s.substring(start)]: the suffix of [s] from index [start]. *)
Fixpoint substring (start : nat) (s : string) : string :=
  match start, s with
  | O, _ => s
  | S n, String _ s' => substring n s'
  | S _, EmptyString => EmptyString
  end.

(** ** Imported interfaces *)

(** [@std/http/unstable-signed-cookie]: the three functions the module
    imports.  The module never looks inside a [CryptoKey]. *)
Class SignedCookieApi (CryptoKey : Type) := {
  signCookie : string → CryptoKey → string;
  verifySignedCookie : string → CryptoKey → bool;
  parseSignedCookie : string → string
}.

(** What the module relies on when it reads back what it wrote: a value
    signed under a key verifies under that key and parses to itself. *)
Class SignedCookieLaws {CryptoKey : Type} (Api : SignedCookieApi CryptoKey)
  : Prop := {
  verify_signCookie : ∀ v k, verifySignedCookie (signCookie v k) k = true;
  parse_signCookie : ∀ v k, parseSignedCookie (signCookie v k) = v
}.

(** [occurs c s]: the character [c] occurs in [s]. *)
Fixpoint occurs (c : ascii) (s : string) : bool :=
  match s with
  | EmptyString => false
  | String a s' => Ascii.eqb a c || occurs c s'
  end.

(** The keyed MAC underneath the codec: [sign(bytes, key) -> tag] and
    [verify(bytes, tag, key) -> bool], opaque. *)
Class Mac (CryptoKey : Type) := {
  sign : string → CryptoKey → string;
  verify : string → string → CryptoKey → bool
}.

(** What is assumed of a MAC: a tag it produced verifies, and a tag is a
    non-empty word over an alphabet without the delimiter. *)
Class MacLaws {CryptoKey : Type} (M : Mac CryptoKey) : Prop := {
  verify_sign : ∀ p k, verify p (sign p k) k = true;
  sign_nonempty : ∀ p k, sign p k ≠ "";
  sign_no_delim : ∀ p k, occurs "." (sign p k) = false
}.

(** The MAC as an ideal one: verification accepts no tag but the one
    signing produces for that plaintext under that key, and the tags of
    a plaintext under two different keys differ. *)
Class MacUnforgeable {CryptoKey : Type} (M : Mac CryptoKey) : Prop := {
  verify_is_sign : ∀ p t k, verify p t k = true → t = sign p k;
  sign_key_inj : ∀ p k k', sign p k = sign p k' → k = k'
}.

Module Codec.

(** Splits [s] at the last occurrence of [sep]; [None] when [sep] does
    not occur. *)
Fixpoint split_last (sep : ascii) (s : string) : option (string * string) :=
  match s with
  | EmptyString => None
  | String c s' =>
      match split_last sep s' with
      | Some (a, b) => Some (String c a, b)
      | None => if Ascii.eqb c sep then Some (EmptyString, s') else None
      end
  end.

(** Modelled from the spec: the signed-cookie codec of
    [@std/http/unstable-signed-cookie] is not part of the sources.
    [encode] produces ["<plaintext>.<tag(plaintext)>"]. *)
Definition encode {K} `{Mac K} (plaintext : string) (key : K) : string :=
  plaintext ++ "." ++ sign plaintext key.

(** Modelled from the spec: [decode] splits on the last delimiter,
    fails on a missing delimiter or an empty tag, and otherwise checks
    the candidate tag against the candidate plaintext. *)
Definition decode {K} `{Mac K} (wireValue : string) (key : K) : option string :=
  match split_last "." wireValue with
  | None => None
  | Some (candidatePlaintext, candidateTag) =>
      if String.eqb candidateTag "" then None
      else if verify candidatePlaintext candidateTag key
           then Some candidatePlaintext
           else None
  end.

End Codec.

(** Modelled from the spec: the imported functions in terms of the
    codec. [verifySignedCookie] is "decode succeeds", [parseSignedCookie]
    is the part before the last delimiter. *)
#[export] Instance codec {K} (M : Mac K) : SignedCookieApi K := {|
  signCookie := Codec.encode;
  verifySignedCookie w k :=
    match Codec.decode w k with Some _ => true | None => false end;
  parseSignedCookie w :=
    match Codec.split_last "." w with Some (p, _) => p | None => w end
|}.

(** ** Cookie header tokenizer *)

(** JavaScript white space stripped by [trim], restricted to ASCII. *)
Definition is_space (c : ascii) : bool :=
  let n := nat_of_ascii c in
  (n =? 32)%nat || (n =? 9)%nat || (n =? 10)%nat || (n =? 11)%nat
  || (n =? 12)%nat || (n =? 13)%nat.

Fixpoint trim_start (s : string) : string :=
  match s with
  | String c s' => if is_space c then trim_start s' else s
  | EmptyString => EmptyString
  end.

Fixpoint trim_end (s : string) : string :=
  match s with
  | EmptyString => EmptyString
  | String c s' =>
      match trim_end s' with
      | EmptyString => if is_space c then EmptyString else String c EmptyString
      | t => String c t
      end
  end.

Definition trim (s : string) : string := trim_end (trim_start s).

(** [s.split(sep)] for a one-character separator. *)
Fixpoint split_on (sep : ascii) (s : string) : list string :=
  match s with
  | EmptyString => [EmptyString]
  | String c s' =>
      if Ascii.eqb c sep then EmptyString :: split_on sep s'
      else match split_on sep s' with
           | [] => [String c EmptyString]
           | h :: t => String c h :: t
           end
  end.

(** Splits at the first occurrence of [sep]. *)
Fixpoint split_first (sep : ascii) (s : string) : option (string * string) :=
  match s with
  | EmptyString => None
  | String c s' =>
      if Ascii.eqb c sep then Some (EmptyString, s')
      else match split_first sep s' with
           | Some (a, b) => Some (String c a, b)
           | None => None
           end
  end.

(** [out[key] = value] on a record kept as its entries: an existing key
    keeps its position and takes the new value, a new key goes last. *)
Fixpoint record_set (key value : string) (out : list (string * string))
  : list (string * string) :=
  match out with
  | [] => [(key, value)]
  | (k, v) :: out' =>
      if String.eqb k key then (k, value) :: out'
      else (k, v) :: record_set key value out'
  end.

(** One [name=value] piece of the header; [None] when it is dropped. *)
Definition parse_pair (piece : string) : option (string * string) :=
  match split_first "=" piece with
  | None => None
  | Some (rawName, rawValue) =>
      let key := trim rawName in
      if String.eqb key "" then None else Some (key, rawValue)
  end.

(** Modelled from the spec: [getCookies] of [@std/http/cookie] is not
    part of the sources.  It turns the [Cookie] header into an ordered
    mapping name -> value; a missing header gives the empty record, a
    piece that is not a [name=value] pair or has an empty name is
    dropped, a later pair of the same name overwrites the earlier one,
    an empty value is kept.  The result is given as [Object.entries]
    lists it. *)
Definition getCookies (headers : option string) : list (string * string) :=
  match headers with
  | None => []
  | Some cookie =>
      foldl (λ out piece,
               match parse_pair piece with
               | Some (key, value) => record_set key value out
               | None => out
               end)
            [] (split_on ";" cookie)
  end.

(** ** Data of the module *)

(** The [Cookie] of [@std/http/cookie]: a name, a value and the optional
    attributes. *)
Record Cookie := mkCookie {
  name : string;
  value : string;
  expires : option Z;
  maxAge : option Z;
  domain : option string;
  path : option string;
  secure : option bool;
  httpOnly : option bool;
  sameSite : option string;
  partitioned : option bool
}.

(** [Pick<Cookie, "path" | "domain" | "secure" | "httpOnly" | "partitioned">] *)
Record DeleteAttributes := mkDeleteAttributes {
  del_path : option string;
  del_domain : option string;
  del_secure : option bool;
  del_httpOnly : option bool;
  del_partitioned : option bool
}.

(** The outbound header collection, as the [Set-Cookie] entries appended
    to it, oldest first. *)
Definition Headers := list Cookie.

(** The errors a call can throw.  The source throws plain [Error]s told
    apart by their message; [ReservedNameError] stands for the two
    messages about the reserved prefix, [MissingKeyError] for the one
    about the absent key, and [TypeError] is what [in] throws on an
    absent right operand. *)
Inductive Error := ReservedNameError | MissingKeyError | TypeError.

Inductive Result (A : Type) :=
  | Ok (a : A)
  | Throw (e : Error).
Arguments Ok {A} a.
Arguments Throw {A} e.

(** [ctx.state], restricted to the three symbol keys of the module. *)
Record State (CryptoKey : Type) := mkState {
  unsignedCookies : option (gmap string string);
  signedCookies : option (gmap string string);
  COOKIE_KEY : option CryptoKey
}.
Arguments mkState {CryptoKey}.
Arguments unsignedCookies {CryptoKey}.
Arguments signedCookies {CryptoKey}.
Arguments COOKIE_KEY {CryptoKey}.

(** The Fresh [Context]: the [Cookie] header of [ctx.req.headers], the
    state bag, and [ctx.next], which runs the rest of the pipeline on
    the state and gives its response. *)
Record Context (CryptoKey Response : Type) := mkContext {
  req_headers : option string;
  state : State CryptoKey;
  next : State CryptoKey → Response
}.
Arguments mkContext {CryptoKey Response}.
Arguments req_headers {CryptoKey Response}.
Arguments state {CryptoKey Response}.
Arguments next {CryptoKey Response}.

Record CookiesMiddlewareOptions (CryptoKey : Type) := mkOptions {
  key : CryptoKey
}.
Arguments mkOptions {CryptoKey}.
Arguments key {CryptoKey}.

(** ** [@std/http/cookie] writers *)

(** Modelled from the spec: [setCookie] of [@std/http/cookie] is not
    part of the sources; it appends one standard [Set-Cookie] entry. *)
Definition stdSetCookie (headers : Headers) (cookie : Cookie) : Headers :=
  (headers ++ [cookie])%list.

(** Modelled from the spec: [deleteCookie] of [@std/http/cookie] is not
    part of the sources; it appends one cookie-expiry entry for [name]:
    an empty value expiring at the epoch, with the given attributes. *)
Definition stdDeleteCookie (headers : Headers) (name : string)
    (attributes : option DeleteAttributes) : Headers :=
  stdSetCookie headers
    {| name := name; value := ""; expires := Some 0%Z; maxAge := None;
       domain := attributes ≫= del_domain;
       path := attributes ≫= del_path;
       secure := attributes ≫= del_secure;
       httpOnly := attributes ≫= del_httpOnly;
       sameSite := None;
       partitioned := attributes ≫= del_partitioned |}.

(** ** Plain objects used as records *)

(** The JavaScript host, as far as the module depends on it: whether
    [Object.prototype] has the [__proto__] accessor (Node, and Deno with
    its unsafe-proto flag) or not (Deno by default). *)
Class JsHost := { proto_accessor : bool }.

(** The names every object inherits from [Object.prototype], the
    [__proto__] accessor apart. *)
Definition Object_prototype : list string :=
  ["constructor"; "hasOwnProperty"; "isPrototypeOf"; "propertyIsEnumerable";
   "toLocaleString"; "toString"; "valueOf"; "__defineGetter__";
   "__defineSetter__"; "__lookupGetter__"; "__lookupSetter__"].

(** [name] is a member a plain object inherits on this host. *)
Definition js_inherited `{JsHost} (name : string) : bool :=
  existsb (String.eqb name) Object_prototype
  || (String.eqb name "__proto__" && proto_accessor).

(** Whether [record[key] = value], with [value] a string, creates or
    updates an own property of a plain object: not for [__proto__] when
    the accessor is there (its setter ignores a string). *)
Definition js_stores `{JsHost} (key : string) : bool :=
  negb (String.eqb key "__proto__" && proto_accessor).

(** [record[key] = value] on the own keys of a plain object. *)
Definition js_set `{JsHost} (key value : string)
    (record : gmap string string) : gmap string string :=
  if js_stores key then <[key := value]> record else record.

(** ** The middleware *)

(** The two records the loop fills. *)
Abbreviation Maps := (gmap string string * gmap string string)%type.

(** The body of the [for] loop of [cookiesMwImpl], on one entry. *)
Definition partition_step {K} `{JsHost} `{SignedCookieApi K}
    (cookieKey : option K) (acc : Maps) (entry : string * string) : Maps :=
  let '(unsigned, signed) := acc in
  let '(key, value) := entry in
  if startsWith "s." key then
    match cookieKey with
    | None => acc
    | Some k =>
        if verifySignedCookie value k
        then (unsigned, js_set (substring 2 key) (parseSignedCookie value) signed)
        else acc
    end
  else (js_set key value unsigned, signed).

(** The [for] loop of [cookiesMwImpl] over [Object.entries(cookies)]. *)
Definition partition {K} `{JsHost} `{SignedCookieApi K}
    (cookieKey : option K) (cookies : list (string * string)) : Maps :=
  foldl (partition_step cookieKey) (∅, ∅) cookies.

(** The state bag when [cookiesMwImpl] reaches [ctx.next()]. *)
Definition cookiesMwState {K R} `{JsHost} `{SignedCookieApi K}
    (ctx : Context K R) (cookieKey : option K) : State K :=
  let cookies := getCookies (req_headers ctx) in
  let '(unsigned, signed) := partition cookieKey cookies in
  {| unsignedCookies := Some unsigned;
     signedCookies := Some signed;
     COOKIE_KEY := match cookieKey with
                   | Some k => Some k
                   | None => COOKIE_KEY (state ctx)
                   end |}.

Definition cookiesMwImpl {K R} `{JsHost} `{SignedCookieApi K}
    (ctx : Context K R) (cookieKey : option K) : R :=
  next ctx (cookiesMwState ctx cookieKey).

Definition cookiesMw {K R} `{JsHost} `{SignedCookieApi K}
    (options : option (CookiesMiddlewareOptions K)) (ctx : Context K R) : R :=
  cookiesMwImpl ctx (key <$> options).

(** Re-serialization of the two records into cookie pairs: an unsigned
    entry as it is, a signed entry [n -> v] as ["s." + n = signCookie v]. *)
Definition reserialize {K} `{SignedCookieApi K} (k : K) (maps : Maps)
  : list (string * string) :=
  let wire (e : string * string) := ("s." ++ e.1, signCookie (e.2) k) in
  (map_to_list (maps.1) ++ (wire <$> map_to_list (maps.2)))%list.

(** ** Deleter and writers *)

(** [name in record]: an own key, or a member the record inherits. *)
Definition js_in `{JsHost} (name : string) (record : gmap string string)
  : bool :=
  bool_decide (is_Some (record !! name)) || js_inherited name.

Definition deleteCookie {K} `{JsHost} (st : State K) (headers : Headers)
    (name : string) (attributes : option DeleteAttributes) : Result Headers :=
  match unsignedCookies st with
  | None => Throw TypeError
  | Some unsigned =>
      let headers :=
        if js_in name unsigned then stdDeleteCookie headers name attributes
        else headers in
      let signedName := "s." ++ name in
      match signedCookies st with
      | Some signed =>
          if js_in signedName signed
          then Ok (stdDeleteCookie headers signedName attributes)
          else Ok headers
      | None => Ok headers
      end
  end.

Definition setUnsignedCookie (headers : Headers) (cookie : Cookie)
  : Result Headers :=
  if startsWith "s." (name cookie) then Throw ReservedNameError
  else Ok (stdSetCookie headers cookie).

Definition setSignedCookie {K} `{SignedCookieApi K}
    (st : State K) (headers : Headers) (cookie : Cookie) : Result Headers :=
  if startsWith "s." (name cookie) then Throw ReservedNameError
  else
    match COOKIE_KEY st with
    | None => Throw MissingKeyError
    | Some k =>
        Ok (stdSetCookie headers
              {| name := "s." ++ name cookie;
                 value := signCookie (value cookie) k;
                 expires := expires cookie; maxAge := maxAge cookie;
                 domain := domain cookie; path := path cookie;
                 secure := secure cookie; httpOnly := httpOnly cookie;
                 sameSite := sameSite cookie;
                 partitioned := partitioned cookie |})
    end.

(** ** Stand-ins to run the definitions on concrete requests *)

(** The two hosts.  Statements that name no host are about [deno]. *)
#[export] Instance deno : JsHost := {| proto_accessor := false |}.

Definition node : JsHost := {| proto_accessor := true |}.

Definition demo_digit (b : bool) : ascii := if b then "1"%char else "0"%char.

(** The bits of the characters of [s], followed by [rest]. *)
Fixpoint demo_digest (s rest : string) : string :=
  match s with
  | EmptyString => rest
  | String (Ascii b0 b1 b2 b3 b4 b5 b6 b7) s' =>
      String (demo_digit b0) (String (demo_digit b1)
        (String (demo_digit b2) (String (demo_digit b3)
          (String (demo_digit b4) (String (demo_digit b5)
            (String (demo_digit b6) (String (demo_digit b7)
              (demo_digest s' rest))))))))
  end.

(** A MAC that is lawful and ideal, though no secret: the tag spells
    out the key and the plaintext. *)
#[export] Instance demo_mac : Mac string := {|
  sign p k := demo_digest k (String "-" (demo_digest p ""));
  verify p t k := String.eqb t (demo_digest k (String "-" (demo_digest p "")))
|}.

(** A cookie with only a name and a value. *)
Definition plain_cookie (n v : string) : Cookie :=
  mkCookie n v None None None None None None None None.

(** A context with an empty state bag whose pipeline returns the state. *)
Definition demo_ctx (header : option string) : Context string (State string) :=
  mkContext header (mkState None None None) (λ st, st).

(** * Properties *)

(** ** String facts *)

Lemma startsWith_s_dot (n : string) : startsWith "s." ("s." ++ n) = true.
Proof. by destruct n. Qed.

Lemma substring_s_dot (n : string) : substring 2 ("s." ++ n) = n.
Proof. reflexivity. Qed.

Lemma startsWith_s_dot_inv (key : string) :
  startsWith "s." key = true → key = "s." ++ substring 2 key.
Proof.
  unfold startsWith. destruct key as [|a [|b key]]; simpl; try done.
  - by case_match.
  - by do 2 (case_match; [subst|done]).
Qed.

Lemma s_dot_inj (n m : string) : "s." ++ n = "s." ++ m → n = m.
Proof. intros H. apply (f_equal (substring 2)) in H. exact H. Qed.

(** ** Plain objects *)

Section Objects.
Context {Host : JsHost}.
Implicit Types (m : gmap string string) (n key value : string).

Lemma js_inherited_s_dot n : js_inherited ("s." ++ n) = false.
Proof. reflexivity. Qed.

Lemma js_stores_s_dot n : js_stores ("s." ++ n) = true.
Proof. reflexivity. Qed.

(** A name the host does not store is one it makes every object inherit. *)
Lemma js_stores_or_inherited n : js_stores n = false → js_inherited n = true.
Proof.
  unfold js_stores, js_inherited. intros ->%negb_false_iff.
  apply orb_true_r.
Qed.

Lemma js_stores_not_proto n : n ≠ "__proto__" → js_stores n = true.
Proof.
  intros Hn. unfold js_stores.
  by destruct (String.eqb_spec n "__proto__").
Qed.

Lemma js_stores_no_accessor n : proto_accessor = false → js_stores n = true.
Proof. intros Hp. unfold js_stores. rewrite Hp. by rewrite andb_false_r. Qed.

Lemma lookup_js_set_eq key value m :
  js_stores key = true → js_set key value m !! key = Some value.
Proof. intros Hs. unfold js_set. rewrite Hs. apply lookup_insert_eq. Qed.

Lemma lookup_js_set_ne key value m n :
  key ≠ n → js_set key value m !! n = m !! n.
Proof.
  intros Hne. unfold js_set. destruct (js_stores key); [|done].
  by apply lookup_insert_ne.
Qed.

(** An own key after an assignment was there before, or is the key
    assigned, which the host stores. *)
Lemma lookup_js_set_Some key value m n v :
  js_set key value m !! n = Some v →
  m !! n = Some v ∨ (key = n ∧ value = v ∧ js_stores n = true).
Proof.
  unfold js_set. destruct (js_stores key) eqn:Hs; [|by left].
  destruct (decide (key = n)) as [->|Hne].
  - rewrite lookup_insert_eq. intros [= ->]. by right.
  - rewrite lookup_insert_ne by done. by left.
Qed.

Lemma size_js_set key value m : (size (js_set key value m) ≤ S (size m))%nat.
Proof.
  unfold js_set. destruct (js_stores key); [|lia].
  rewrite map_size_insert. destruct (m !! key); simpl; lia.
Qed.

End Objects.

(** ** The loop of the partitioner *)

Section Partition.
Context {K : Type} {Host : JsHost} `{Api : SignedCookieApi K}.
Implicit Types (cookieKey : option K) (cookies : list (string * string)).
Implicit Types (n w v : string) (acc : Maps).

Lemma partition_snoc cookieKey cookies e :
  partition cookieKey (cookies ++ [e])
  = partition_step cookieKey (partition cookieKey cookies) e.
Proof. unfold partition. by rewrite foldl_app. Qed.

(** An entry the loop skips leaves both records as they are. *)
Lemma partition_step_skip cookieKey acc e :
  startsWith "s." e.1 = true →
  (∀ k, cookieKey = Some k → verifySignedCookie e.2 k = false) →
  partition_step cookieKey acc e = acc.
Proof.
  intros Hpre Hbad. destruct acc as [u s], e as [key0 w]; simpl in *.
  rewrite Hpre. destruct cookieKey as [k|]; [|done].
  by rewrite (Hbad k eq_refl).
Qed.

(** An own key of the unsigned record: a request cookie without the
    prefix, under a name the host stores. *)
Lemma unsigned_lookup_inv cookieKey cookies n v :
  (partition cookieKey cookies).1 !! n = Some v →
  startsWith "s." n = false ∧ (n, v) ∈ cookies ∧ js_stores n = true.
Proof.
  induction cookies as [|[key0 w] cookies IH] using rev_ind.
  - cbn. by rewrite lookup_empty.
  - rewrite partition_snoc.
    destruct (partition cookieKey cookies) as [u s] eqn:E.
    unfold partition_step. cbn [fst snd] in IH.
    assert (u !! n = Some v →
            startsWith "s." n = false
            ∧ (n, v) ∈ (cookies ++ [(key0, w)])%list ∧ js_stores n = true)
      as Hold.
    { intros Hl. destruct (IH Hl) as (? & ? & ?). split_and!; [done| |done].
      apply elem_of_app. by left. }
    destruct (startsWith "s." key0) eqn:Hp.
    + by destruct cookieKey as [k|]; [destruct (verifySignedCookie w k)|].
    + cbn [fst]. intros [Hl|(-> & -> & Hs)]%lookup_js_set_Some; [by apply Hold|].
      split_and!; [done| |done].
      apply elem_of_app. right. by apply list_elem_of_singleton.
Qed.

Lemma unsigned_lookup_elem cookieKey cookies n v :
  (partition cookieKey cookies).1 !! n = Some v →
  startsWith "s." n = false ∧ (n, v) ∈ cookies.
Proof. intros (? & ? & _)%unsigned_lookup_inv. done. Qed.

(** An own key of the signed record: a request cookie with the prefix
    whose value verified, under a stripped name the host stores. *)
Lemma signed_lookup_inv cookieKey cookies n v :
  (partition cookieKey cookies).2 !! n = Some v →
  ∃ k w, cookieKey = Some k ∧ ("s." ++ n, w) ∈ cookies
         ∧ verifySignedCookie w k = true ∧ parseSignedCookie w = v
         ∧ js_stores n = true.
Proof.
  induction cookies as [|[key0 w] cookies IH] using rev_ind.
  - cbn. by rewrite lookup_empty.
  - rewrite partition_snoc.
    destruct (partition cookieKey cookies) as [u s] eqn:E.
    unfold partition_step. cbn [fst snd] in IH.
    assert (s !! n = Some v →
            ∃ k w0, cookieKey = Some k
                    ∧ ("s." ++ n, w0) ∈ (cookies ++ [(key0, w)])%list
                    ∧ verifySignedCookie w0 k = true ∧ parseSignedCookie w0 = v
                    ∧ js_stores n = true)
      as Hold.
    { intros Hl. apply IH in Hl as (k & w0 & ? & ? & ? & ? & ?).
      exists k, w0. split_and!; try done. apply elem_of_app. by left. }
    destruct (startsWith "s." key0) eqn:Hp; [|done].
    destruct cookieKey as [k|]; [|done].
    destruct (verifySignedCookie w k) eqn:Hv; [|done]. cbn [snd].
    intros [Hl|(<- & <- & Hs)]%lookup_js_set_Some; [by apply Hold|].
    exists k, w. rewrite <- (startsWith_s_dot_inv _ Hp).
    split_and!; try done. apply elem_of_app. right.
    by apply list_elem_of_singleton.
Qed.

Lemma signed_lookup_elem cookieKey cookies n v :
  (partition cookieKey cookies).2 !! n = Some v →
  ∃ k w, cookieKey = Some k ∧ ("s." ++ n, w) ∈ cookies
         ∧ verifySignedCookie w k = true ∧ parseSignedCookie w = v.
Proof. intros (k & w & ? & ? & ? & ? & _)%signed_lookup_inv. eauto 6. Qed.

Lemma unsigned_elem_lookup cookieKey cookies n v :
  NoDup cookies.*1 → (n, v) ∈ cookies → startsWith "s." n = false →
  js_stores n = true →
  (partition cookieKey cookies).1 !! n = Some v.
Proof.
  intros Hnd Hin Hp Hs. induction cookies as [|[key0 w] cookies IH] using rev_ind.
  - by apply elem_of_nil in Hin.
  - rewrite partition_snoc. rewrite fmap_app in Hnd.
    apply NoDup_app in Hnd as (Hnd & Hfresh & _).
    destruct (partition cookieKey cookies) as [u s] eqn:E.
    unfold partition_step. cbn [fst snd] in IH.
    apply elem_of_app in Hin as [Hin|Hin].
    + assert (key0 ≠ n) as Hne.
      { intros ->. apply (Hfresh n); [|by left].
        apply list_elem_of_fmap. by exists (n, v). }
      specialize (IH Hnd Hin).
      destruct (startsWith "s." key0).
      * by destruct cookieKey; [destruct (verifySignedCookie _ _)|].
      * cbn [fst]. by rewrite lookup_js_set_ne.
    + apply list_elem_of_singleton in Hin as [= -> ->]. rewrite Hp. cbn [fst].
      by apply lookup_js_set_eq.
Qed.

Lemma signed_elem_lookup k cookies n w :
  NoDup cookies.*1 → ("s." ++ n, w) ∈ cookies →
  verifySignedCookie w k = true → js_stores n = true →
  (partition (Some k) cookies).2 !! n = Some (parseSignedCookie w).
Proof.
  intros Hnd Hin Hv Hs. induction cookies as [|[key0 w0] cookies IH] using rev_ind.
  - by apply elem_of_nil in Hin.
  - rewrite partition_snoc. rewrite fmap_app in Hnd.
    apply NoDup_app in Hnd as (Hnd & Hfresh & _).
    destruct (partition (Some k) cookies) as [u s] eqn:E.
    unfold partition_step. cbn [fst snd] in IH.
    apply elem_of_app in Hin as [Hin|Hin].
    + specialize (IH Hnd Hin).
      destruct (startsWith "s." key0) eqn:Hp; [|done].
      destruct (verifySignedCookie w0 k); [|done]. cbn [snd].
      rewrite lookup_js_set_ne; [done|]. intros <-.
      apply (Hfresh key0); [|by left].
      apply list_elem_of_fmap. exists ("s." ++ substring 2 key0, w).
      split; [|done]. simpl. by apply startsWith_s_dot_inv.
    + apply list_elem_of_singleton in Hin as [= <- <-].
      rewrite startsWith_s_dot, Hv. cbn [snd].
      rewrite substring_s_dot. by apply lookup_js_set_eq.
Qed.

Lemma signed_empty_without_key cookies : (partition None cookies).2 = ∅.
Proof.
  apply map_eq; intros n. rewrite lookup_empty.
  destruct ((partition None cookies).2 !! n) eqn:E; [|done].
  by apply signed_lookup_elem in E as (? & ? & ? & _).
Qed.

(** X4. The order in which [Object.entries] lists the record does not
    matter (it lists integer-like keys first): the names of a record are
    distinct, and then the two records depend on the set of entries only. *)
Lemma partition_order_irrelevant cookieKey cookies cookies' :
  NoDup cookies.*1 → cookies ≡ₚ cookies' →
  partition cookieKey cookies = partition cookieKey cookies'.
Proof.
  intros Hnd Hperm.
  assert (NoDup cookies'.*1) as Hnd' by by rewrite <- Hperm.
  apply injective_projections; apply map_eq; intros n; apply option_eq; intros v.
  - split; intros (Hp & Hin & Hs)%unsigned_lookup_inv;
      (apply unsigned_elem_lookup; [done| |done|done]).
    + by rewrite <- Hperm.
    + by rewrite Hperm.
  - destruct cookieKey as [k|]; [|by rewrite !signed_empty_without_key].
    split; intros (k' & w & [= <-] & Hin & Hv & <- & Hs)%signed_lookup_inv;
      (apply signed_elem_lookup; [done| |done|done]).
    + by rewrite <- Hperm.
    + by rewrite Hperm.
Qed.

End Partition.

(** ** The codec over a lawful MAC *)

Section CodecFacts.
Context {K : Type} (M : Mac K) {L : MacLaws M}.

Lemma split_last_absent sep s :
  occurs sep s = false → Codec.split_last sep s = None.
Proof.
  induction s as [|c s IH]; simpl; [done|].
  intros [Hc Hs]%orb_false_elim. by rewrite (IH Hs), Hc.
Qed.

Lemma split_last_app sep p t :
  occurs sep t = false →
  Codec.split_last sep (p ++ String sep t) = Some (p, t).
Proof.
  intros Ht. induction p as [|c p IH].
  - change ("" ++ String sep t) with (String sep t). simpl.
    by rewrite (split_last_absent _ _ Ht), Ascii.eqb_refl.
  - change (String c p ++ String sep t) with (String c (p ++ String sep t)).
    simpl. by rewrite IH.
Qed.

Lemma decode_encode (v : string) (k : K) :
  Codec.decode (Codec.encode v k) k = Some v.
Proof.
  unfold Codec.decode, Codec.encode.
  change ("." ++ sign v k) with (String "." (sign v k)).
  rewrite split_last_app by apply sign_no_delim.
  destruct (String.eqb_spec (sign v k) "") as [E|_].
  - by apply sign_nonempty in E.
  - by rewrite verify_sign.
Qed.

#[export] Instance codec_laws : SignedCookieLaws (codec M).
Proof.
  split; intros v k; simpl.
  - by rewrite decode_encode.
  - unfold Codec.encode.
    change ("." ++ sign v k) with (String "." (sign v k)).
    by rewrite split_last_app by apply sign_no_delim.
Qed.

(** What [split_last] returns are the two sides of a delimiter. *)
Lemma split_last_Some sep s a b :
  Codec.split_last sep s = Some (a, b) → s = a ++ String sep b.
Proof.
  revert a. induction s as [|c s IH]; intros a; simpl; [done|].
  destruct (Codec.split_last sep s) as [[a' b']|].
  - intros [= <- <-]. by rewrite (IH a' eq_refl).
  - destruct (Ascii.eqb_spec c sep) as [->|]; [|done]. by intros [= <- <-].
Qed.

(** Over an ideal MAC, what decodes under a key is what [encode]
    produces under that key for the plaintext returned. *)
Lemma decode_Some_inv {U : MacUnforgeable M} (w p : string) (k : K) :
  Codec.decode w k = Some p → w = Codec.encode p k.
Proof.
  unfold Codec.decode, Codec.encode.
  destruct (Codec.split_last "." w) as [[a t]|] eqn:E; [|done].
  destruct (String.eqb t ""); [done|].
  destruct (verify a t k) eqn:Hv; [|done]. intros [= <-].
  apply verify_is_sign in Hv as ->. by apply split_last_Some in E.
Qed.

(** Over an ideal MAC, what [encode] produces under one key does not
    decode under another. *)
Lemma decode_other_key {U : MacUnforgeable M} (v : string) (k k' : K) :
  k' ≠ k → Codec.decode (Codec.encode v k') k = None.
Proof.
  intros Hk. unfold Codec.decode, Codec.encode.
  change ("." ++ sign v k') with (String "." (sign v k')).
  rewrite split_last_app by apply sign_no_delim.
  destruct (String.eqb (sign v k') ""); [done|].
  destruct (verify v (sign v k') k) eqn:Hv; [|done].
  apply verify_is_sign, sign_key_inj in Hv. done.
Qed.

End CodecFacts.

Lemma demo_digit_not_delim (c : ascii) (b : bool) :
  c ≠ "0"%char → c ≠ "1"%char → Ascii.eqb (demo_digit b) c = false.
Proof.
  intros H0 H1. destruct (Ascii.eqb_spec (demo_digit b) c) as [<-|]; [|done].
  by destruct b.
Qed.

Lemma demo_digit_inj (b b' : bool) : demo_digit b = demo_digit b' → b = b'.
Proof. by destruct b, b'. Qed.

Lemma demo_digest_occurs (c : ascii) (s rest : string) :
  c ≠ "0"%char → c ≠ "1"%char →
  occurs c (demo_digest s rest) = occurs c rest.
Proof.
  intros H0 H1. induction s as [|[b0 b1 b2 b3 b4 b5 b6 b7] s IH]; [done|].
  cbn [demo_digest occurs]. by rewrite !demo_digit_not_delim, IH.
Qed.

(** The digest of the key, up to the separator, determines the key. *)
Lemma demo_digest_inj (k k' r r' : string) :
  demo_digest k (String "-" r) = demo_digest k' (String "-" r') → k = k'.
Proof.
  revert k'.
  induction k as [|[b0 b1 b2 b3 b4 b5 b6 b7] k IH];
    intros [|[c0 c1 c2 c3 c4 c5 c6 c7] k']; cbn [demo_digest].
  - done.
  - intros [= H _]. by destruct c0.
  - intros [= H _]. by destruct b0.
  - intros [= ?%demo_digit_inj ?%demo_digit_inj ?%demo_digit_inj
              ?%demo_digit_inj ?%demo_digit_inj ?%demo_digit_inj
              ?%demo_digit_inj ?%demo_digit_inj Hrest].
    subst. by rewrite (IH k' Hrest).
Qed.

#[export] Instance demo_mac_laws : MacLaws demo_mac.
Proof.
  split; intros p k; simpl.
  - apply String.eqb_refl.
  - by destruct k as [|[] k].
  - rewrite demo_digest_occurs by done. simpl.
    by rewrite demo_digest_occurs by done.
Qed.

#[export] Instance demo_mac_unforgeable : MacUnforgeable demo_mac.
Proof.
  split; simpl.
  - by intros p t k ->%String.eqb_eq.
  - intros p k k'. apply demo_digest_inj.
Qed.

(** ** The tokenizer *)

Lemma split_first_absent sep s :
  occurs sep s = false → split_first sep s = None.
Proof.
  induction s as [|c s IH]; simpl; [done|].
  intros [Hc Hs]%orb_false_elim. by rewrite Hc, (IH Hs).
Qed.

Lemma split_first_app sep n v :
  occurs sep n = false → split_first sep (n ++ String sep v) = Some (n, v).
Proof.
  induction n as [|c n IH]; intros Hn.
  - change ("" ++ String sep v) with (String sep v). simpl.
    by rewrite Ascii.eqb_refl.
  - change (String c n ++ String sep v) with (String c (n ++ String sep v)).
    simpl in *. apply orb_false_elim in Hn as [Hc Hn]. by rewrite Hc, (IH Hn).
Qed.

Lemma occurs_split_on c sep s :
  occurs c s = false → Forall (λ piece, occurs c piece = false) (split_on sep s).
Proof.
  induction s as [|a s IH]; simpl.
  - by repeat constructor.
  - intros [Ha Hs]%orb_false_elim. specialize (IH Hs).
    destruct (Ascii.eqb a sep); [by constructor|].
    destruct (split_on sep s) as [|h t]; [by repeat constructor; simpl; rewrite Ha|].
    inversion IH; subst. constructor; [|done]. simpl. by rewrite Ha.
Qed.

Lemma parse_pair_name piece key value :
  parse_pair piece = Some (key, value) → key ≠ "".
Proof.
  unfold parse_pair. destruct (split_first "=" piece) as [[rawName rawValue]|]; [|done].
  destruct (String.eqb_spec (trim rawName) ""); [done|]. by intros [= <- _].
Qed.

Lemma parse_pair_nameless v : parse_pair ("=" ++ v) = None.
Proof. reflexivity. Qed.

Lemma parse_pair_empty_value n :
  occurs "=" n = false → trim n ≠ "" → parse_pair (n ++ "=") = Some (trim n, "").
Proof.
  intros Hn Ht. unfold parse_pair.
  rewrite (split_first_app "=" n "" Hn).
  by destruct (String.eqb_spec (trim n) "").
Qed.

Lemma record_set_elem key value out n v :
  (n, v) ∈ record_set key value out → (n = key ∧ v = value) ∨ (n, v) ∈ out.
Proof.
  induction out as [|[k0 v0] out IH]; simpl.
  - intros [= -> ->]%list_elem_of_singleton. by left.
  - destruct (String.eqb_spec k0 key) as [->|Hne].
    + intros [[= -> ->]|Hin]%elem_of_cons; [by left|]. right. by right.
    + intros [[= -> ->]|Hin]%elem_of_cons; [right; by left|].
      destruct (IH Hin) as [?|?]; [by left|]. right. by right.
Qed.

Lemma record_set_NoDup key value out :
  NoDup out.*1 → NoDup (record_set key value out).*1.
Proof.
  induction out as [|[k0 v0] out IH]; simpl.
  - intros _. apply NoDup_singleton.
  - intros [Hk0 Hnd]%NoDup_cons.
    destruct (String.eqb_spec k0 key) as [->|Hne]; simpl.
    + by apply NoDup_cons.
    + apply NoDup_cons. split; [|by apply IH].
      intros ([n v] & Hn & Hin)%list_elem_of_fmap. simpl in Hn. subst n.
      apply record_set_elem in Hin as [[? _]|Hin]; [done|].
      apply Hk0, list_elem_of_fmap. by exists (k0, v).
Qed.

(** An invariant of the record under construction holds of the result. *)
Lemma getCookies_inv (P : list (string * string) → Prop) :
  P [] →
  (∀ out piece key value,
     P out → parse_pair piece = Some (key, value) → P (record_set key value out)) →
  ∀ headers, P (getCookies headers).
Proof.
  intros Hnil Hset [cookie|]; simpl; [|done].
  generalize (split_on ";" cookie) as pieces.
  generalize (@nil (string * string)) as out, Hnil.
  intros out Hout pieces. revert out Hout.
  induction pieces as [|piece pieces IH]; intros out Hout; simpl; [done|].
  apply IH. destruct (parse_pair piece) as [[key value]|] eqn:E; [|done].
  by apply (Hset _ piece).
Qed.

Lemma getCookies_NoDup headers : NoDup (getCookies headers).*1.
Proof.
  apply (getCookies_inv (λ out, NoDup out.*1)); [apply NoDup_nil_2|].
  intros out _ key value Hout _. by apply record_set_NoDup.
Qed.

Lemma getCookies_name headers n v : (n, v) ∈ getCookies headers → n ≠ "".
Proof.
  revert n v.
  apply (getCookies_inv (λ out, ∀ n v, (n, v) ∈ out → n ≠ "")); [set_solver|].
  intros out piece key value Hout Hp n v [[-> _]|Hin]%record_set_elem.
  - by apply parse_pair_name in Hp.
  - by apply (Hout n v).
Qed.

Lemma parse_pair_absent piece :
  occurs "=" piece = false → parse_pair piece = None.
Proof. intros Hp. unfold parse_pair. by rewrite (split_first_absent _ _ Hp). Qed.

Lemma getCookies_unparsable cookie :
  occurs "=" cookie = false → getCookies (Some cookie) = [].
Proof.
  intros Hc. unfold getCookies.
  pose proof (occurs_split_on "=" ";" cookie Hc) as Hall.
  induction Hall as [|piece pieces Hp _ IH]; [done|].
  cbn [foldl]. by rewrite (parse_pair_absent _ Hp).
Qed.

(** ** The middleware, the deleter and the writers *)

Section Middleware.
Context {K R : Type} {Host : JsHost} `{Api : SignedCookieApi K}.
Implicit Types (ctx : Context K R) (cookieKey : option K) (st : State K).
Implicit Types (headers : Headers) (cookie : Cookie) (n v w : string).

Lemma cookiesMwState_unsigned ctx cookieKey :
  unsignedCookies (cookiesMwState ctx cookieKey)
  = Some (partition cookieKey (getCookies (req_headers ctx))).1.
Proof. unfold cookiesMwState. by destruct (partition _ _). Qed.

Lemma cookiesMwState_signed ctx cookieKey :
  signedCookies (cookiesMwState ctx cookieKey)
  = Some (partition cookieKey (getCookies (req_headers ctx))).2.
Proof. unfold cookiesMwState. by destruct (partition _ _). Qed.

Lemma cookiesMwState_key ctx cookieKey :
  COOKIE_KEY (cookiesMwState ctx cookieKey)
  = match cookieKey with Some k => Some k | None => COOKIE_KEY (state ctx) end.
Proof. unfold cookiesMwState. by destruct (partition _ _). Qed.

Lemma State_eq (st1 st2 : State K) :
  unsignedCookies st1 = unsignedCookies st2 →
  signedCookies st1 = signedCookies st2 →
  COOKIE_KEY st1 = COOKIE_KEY st2 → st1 = st2.
Proof. destruct st1, st2; simpl. by intros -> -> ->. Qed.

(** What [deleteCookie] appends, once both records are in the state. *)
Lemma deleteCookie_emits st headers n attributes u s :
  unsignedCookies st = Some u → signedCookies st = Some s →
  deleteCookie st headers n attributes
  = Ok (headers
        ++ (if js_in n u then stdDeleteCookie [] n attributes else [])
        ++ (if js_in ("s." ++ n) s
            then stdDeleteCookie [] ("s." ++ n) attributes else []))%list.
Proof.
  intros Hu Hs. unfold deleteCookie. rewrite Hu, Hs.
  unfold stdDeleteCookie, stdSetCookie.
  destruct (js_in n u), (js_in ("s." ++ n) s); simpl;
    by rewrite ?app_nil_r, <- ?app_assoc.
Qed.

(** The test for the prefixed name sees own keys only: no inherited
    member has the prefix. *)
Lemma js_in_s_dot n (s : gmap string string) :
  js_in ("s." ++ n) s = bool_decide (is_Some (s !! ("s." ++ n))).
Proof. unfold js_in. by rewrite js_inherited_s_dot, orb_false_r. Qed.

(** [deleteCookie] for [n] appends nothing when the request carried the
    signed cookie of [n] alone ([n] not an inherited member): the signed
    record then has the key [n], not ["s." + n]. *)
Lemma deleteCookie_ignores_stripped_key st headers n attributes u s :
  unsignedCookies st = Some u → signedCookies st = Some s →
  u !! n = None → js_inherited n = false → s !! ("s." ++ n) = None →
  deleteCookie st headers n attributes = Ok headers.
Proof.
  intros Hu Hs Hn Hi Hsn. rewrite (deleteCookie_emits _ _ _ _ u s Hu Hs).
  rewrite js_in_s_dot. unfold js_in. rewrite Hn, Hsn, Hi.
  rewrite !bool_decide_eq_false_2 by (by intros [? ?]).
  by rewrite !app_nil_r.
Qed.

(** C10. Once the middleware has run, the state bag holds both the
    unsigned and the signed record; without a key the signed record is
    there and empty; the key slot holds the configured key; and
    [deleteCookie] on that state never fails on an absent record. *)
Theorem state_holds_both_records ctx cookieKey :
  is_Some (unsignedCookies (cookiesMwState ctx cookieKey))
  ∧ is_Some (signedCookies (cookiesMwState ctx cookieKey))
  ∧ signedCookies (cookiesMwState ctx None) = Some ∅
  ∧ (∀ k, COOKIE_KEY (cookiesMwState ctx (Some k)) = Some k)
  ∧ (∀ headers n attributes,
       ∃ headers', deleteCookie (cookiesMwState ctx cookieKey)
                     headers n attributes = Ok headers')
  ∧ (∀ options,
       cookiesMw options ctx = next ctx (cookiesMwState ctx (key <$> options))).
Proof.
  rewrite cookiesMwState_unsigned, !cookiesMwState_signed.
  rewrite signed_empty_without_key. repeat split; try by eexists.
  - intros k. by rewrite cookiesMwState_key.
  - intros headers n attributes. eexists.
    by apply deleteCookie_emits;
      [apply cookiesMwState_unsigned|apply cookiesMwState_signed].
Qed.

(** C6. A name that starts with the reserved prefix is refused by both
    writers with the reserved-name error; any other name is written by
    [setUnsignedCookie] as one appended entry, the cookie as given. *)
Theorem writers_refuse_reserved_prefix st headers cookie :
  (startsWith "s." (name cookie) = true →
     setUnsignedCookie headers cookie = Throw ReservedNameError
     ∧ setSignedCookie st headers cookie = Throw ReservedNameError)
  ∧ (startsWith "s." (name cookie) = false →
     setUnsignedCookie headers cookie = Ok (headers ++ [cookie])%list).
Proof.
  unfold setUnsignedCookie, setSignedCookie, stdSetCookie.
  by split; intros ->.
Qed.

(** C7. For a name without the prefix, [setSignedCookie] fails with the
    missing-key error when the state holds no key; with a key [k] it
    appends exactly one entry, named ["s." + name] (so the prefix is
    there once: stripping it gives back the name, which has none), with
    value [signCookie value k] and the attributes of the cookie. *)
Theorem setSignedCookie_spec st headers cookie :
  startsWith "s." (name cookie) = false →
  (COOKIE_KEY st = None →
     setSignedCookie st headers cookie = Throw MissingKeyError)
  ∧ (∀ k, COOKIE_KEY st = Some k →
       ∃ c, setSignedCookie st headers cookie = Ok (headers ++ [c])%list
            ∧ name c = "s." ++ name cookie
            ∧ value c = signCookie (value cookie) k
            ∧ substring 2 (name c) = name cookie
            ∧ startsWith "s." (substring 2 (name c)) = false
            ∧ (expires c, maxAge c, domain c, path c)
              = (expires cookie, maxAge cookie, domain cookie, path cookie)
            ∧ (secure c, httpOnly c, sameSite c, partitioned c)
              = (secure cookie, httpOnly cookie, sameSite cookie,
                 partitioned cookie)).
Proof.
  intros Hp. unfold setSignedCookie, stdSetCookie. rewrite Hp.
  split; [by intros ->|]. intros k ->. eexists. split; [done|]. simpl.
  by repeat split.
Qed.

(** C3. Take two requests whose parsed cookie records differ by one
    entry only, an entry with the reserved prefix that does not verify
    under the configured key (or any such entry when no key is
    configured).  The middleware hands the same state to the rest of
    the pipeline in both runs, and its response is the response of the
    rest of the pipeline, the same in both runs. *)
Theorem forged_cookie_as_if_absent ctx1 ctx2 cookieKey before after n w :
  getCookies (req_headers ctx1) = (before ++ (n, w) :: after)%list →
  getCookies (req_headers ctx2) = (before ++ after)%list →
  startsWith "s." n = true →
  (∀ k, cookieKey = Some k → verifySignedCookie w k = false) →
  state ctx1 = state ctx2 → next ctx1 = next ctx2 →
  cookiesMwState ctx1 cookieKey = cookiesMwState ctx2 cookieKey
  ∧ cookiesMwImpl ctx1 cookieKey = cookiesMwImpl ctx2 cookieKey
  ∧ cookiesMwImpl ctx1 cookieKey = next ctx1 (cookiesMwState ctx2 cookieKey).
Proof.
  intros E1 E2 Hp Hbad Hst Hnext.
  assert (cookiesMwState ctx1 cookieKey = cookiesMwState ctx2 cookieKey) as E.
  { assert (partition cookieKey (getCookies (req_headers ctx1))
            = partition cookieKey (getCookies (req_headers ctx2))) as Hmaps.
    { rewrite E1, E2. unfold partition. rewrite !foldl_app. simpl.
      by rewrite (partition_step_skip cookieKey _ (n, w) Hp Hbad). }
    apply State_eq.
    - by rewrite !cookiesMwState_unsigned, Hmaps.
    - by rewrite !cookiesMwState_signed, Hmaps.
    - by rewrite !cookiesMwState_key, Hst. }
  unfold cookiesMwImpl. by rewrite E, Hnext.
Qed.

End Middleware.

(** ** The two records *)

Section Records.
Context {K : Type} {Host : JsHost} `{Api : SignedCookieApi K}.
Implicit Types (cookieKey : option K) (cookies : list (string * string)).
Implicit Types (n v w : string).

(** C5, as the code has it.  The two records are filled from disjoint
    sets of request cookies: a key of the unsigned record is the name
    of a request cookie without the reserved prefix; a key [n] of the
    signed record stands for the request cookie named ["s." + n], and
    ["s." + n] is not a key of the unsigned record. *)
Theorem records_from_disjoint_cookies cookieKey cookies n :
  (is_Some ((partition cookieKey cookies).1 !! n) →
     startsWith "s." n = false ∧ ∃ v, (n, v) ∈ cookies)
  ∧ (is_Some ((partition cookieKey cookies).2 !! n) →
     (partition cookieKey cookies).1 !! ("s." ++ n) = None
     ∧ ∃ w, ("s." ++ n, w) ∈ cookies).
Proof.
  split.
  - intros [v [Hp Hin]%unsigned_lookup_elem]. eauto.
  - intros [v (k & w & _ & Hin & _)%signed_lookup_elem]. split; [|eauto].
    destruct ((partition cookieKey cookies).1 !! ("s." ++ n)) eqn:E; [|done].
    apply unsigned_lookup_elem in E as [Hp _].
    by rewrite startsWith_s_dot in Hp.
Qed.

(** Re-partitioning a re-serialized pair of records gives them back,
    as soon as no key of the unsigned one carries the prefix and the
    host stores the keys of both. *)
Lemma partition_reserialize {Laws : SignedCookieLaws Api} k
    (u s : gmap string string) :
  (∀ n v, u !! n = Some v → startsWith "s." n = false ∧ js_stores n = true) →
  (∀ n v, s !! n = Some v → js_stores n = true) →
  partition (Some k) (reserialize k (u, s)) = (u, s).
Proof.
  intros Hu' Hs'. unfold reserialize; simpl.
  assert (∀ n v, u !! n = Some v → startsWith "s." n = false) as Hu
    by (intros n v Hl; by destruct (Hu' n v Hl)).
  set (wire := λ e : string * string, ("s." ++ e.1, signCookie e.2 k)).
  set (l := (map_to_list u ++ (wire <$> map_to_list s))%list).
  assert (∀ n w, ("s." ++ n, w) ∈ map_to_list u → False) as Hnot_u.
  { intros n w Hin%elem_of_map_to_list. apply Hu in Hin.
    by rewrite startsWith_s_dot in Hin. }
  assert (∀ n w, ("s." ++ n, w) ∈ l →
                 ∃ v, s !! n = Some v ∧ w = signCookie v k) as Hwire.
  { intros n w [Hin|Hin]%elem_of_app; [by destruct (Hnot_u n w)|].
    apply list_elem_of_fmap in Hin as ([m v] & [= Hm ->] & Hin).
    change (n = m) in Hm. subst m. apply elem_of_map_to_list in Hin. eauto. }
  assert (NoDup l.*1) as Hnd.
  { unfold l. rewrite fmap_app. apply NoDup_app. split_and!.
    - apply NoDup_fst_map_to_list.
    - intros x ([n v] & -> & Hin)%list_elem_of_fmap.
      intros ([? w] & Hx & ([m v'] & [= -> ->] & _)%list_elem_of_fmap)%list_elem_of_fmap.
      simpl in Hx. subst n. by apply (Hnot_u m v).
    - rewrite <- list_fmap_compose.
      change (fst ∘ wire) with ((λ m, "s." ++ m) ∘ (fst : string * string → string)).
      rewrite list_fmap_compose. apply NoDup_fmap_2.
      + intros ? ?. apply s_dot_inj.
      + apply NoDup_fst_map_to_list. }
  apply injective_projections; apply map_eq; intros n; apply option_eq; intros v.
  - split.
    + intros [Hp [Hin|Hin]%elem_of_app]%unsigned_lookup_elem.
      * by apply elem_of_map_to_list.
      * apply list_elem_of_fmap in Hin as ([m v'] & [= -> ->] & _).
        by rewrite startsWith_s_dot in Hp.
    + intros Hl. destruct (Hu' n v Hl) as [? ?].
      apply unsigned_elem_lookup; [done| |done|done].
      apply elem_of_app. left. by apply elem_of_map_to_list.
  - split.
    + intros (k' & w & [= <-] & Hin & _ & Hparse)%signed_lookup_elem.
      apply Hwire in Hin as (v' & Hs & ->).
      rewrite parse_signCookie in Hparse. by subst v'.
    + intros Hl. simpl.
      rewrite <- (parse_signCookie v k).
      apply signed_elem_lookup;
        [done| |apply verify_signCookie|by apply (Hs' n v)].
      apply elem_of_app. right. apply list_elem_of_fmap. exists (n, v).
      split; [done|]. by apply elem_of_map_to_list.
Qed.

(** C9. Partitioning is idempotent: re-serializing the two records of
    a run into cookie pairs (a signed entry as ["s." + n] with value
    [signCookie v k]) and partitioning these under the same key gives
    the same two records. *)
Theorem repartition_idempotent {Laws : SignedCookieLaws Api} k cookies :
  partition (Some k) (reserialize k (partition (Some k) cookies))
  = partition (Some k) cookies.
Proof.
  destruct (partition (Some k) cookies) as [u s] eqn:E.
  apply partition_reserialize; intros n v Hl.
  - destruct (unsigned_lookup_inv (Some k) cookies n v) as (? & _ & ?);
      [by rewrite E|done].
  - destruct (signed_lookup_inv (Some k) cookies n v)
      as (? & ? & _ & _ & _ & _ & ?); [by rewrite E|done].
Qed.

End Records.

(** ** Edge cases of the partitioner *)

Section EdgeCases.
Context {K R : Type} {Host : JsHost} `{Api : SignedCookieApi K}.
Implicit Types (ctx : Context K R) (cookieKey : option K).

(** C8, as the code has it.  With [u] and [s] the two records in the
    state after the middleware ran: a missing header, an empty header
    and a header without any [=] give two empty records; a pair [name=]
    is the entry [name -> ""], which is in [u] with the empty string as
    its value; a pair [=value] is no entry, no entry has the empty name
    and [u] has no empty key, while [s] has the empty key exactly when
    the request carried a cookie named ["s."] that verified; without a
    key [s] is empty, and a name with the reserved prefix is never a key
    of [u]; every other entry of the parsed header whose name the host
    stores (any name but [__proto__] where the accessor is there) is in
    [u] with its value, and [u] holds nothing else. *)
Theorem partitioner_edge_cases ctx cookieKey (u s : gmap string string) :
  unsignedCookies (cookiesMwState ctx cookieKey) = Some u →
  signedCookies (cookiesMwState ctx cookieKey) = Some s →
  ((req_headers ctx = None ∨ req_headers ctx = Some ""
    ∨ (∃ cookie, req_headers ctx = Some cookie ∧ occurs "=" cookie = false)) →
     u = ∅ ∧ s = ∅)
  ∧ (∀ n, occurs "=" n = false → trim n ≠ "" →
          parse_pair (n ++ "=") = Some (trim n, ""))
  ∧ (∀ n, (n, "") ∈ getCookies (req_headers ctx) →
          startsWith "s." n = false → js_stores n = true → u !! n = Some "")
  ∧ (∀ v, parse_pair ("=" ++ v) = None)
  ∧ (∀ v, ("", v) ∉ getCookies (req_headers ctx))
  ∧ u !! "" = None
  ∧ (∀ v, s !! "" = Some v
          ↔ ∃ k w, cookieKey = Some k
                   ∧ ("s.", w) ∈ getCookies (req_headers ctx)
                   ∧ verifySignedCookie w k = true ∧ parseSignedCookie w = v)
  ∧ (cookieKey = None → s = ∅)
  ∧ (∀ n, startsWith "s." n = true → u !! n = None)
  ∧ (∀ n v, startsWith "s." n = false → js_stores n = true →
            (u !! n = Some v ↔ (n, v) ∈ getCookies (req_headers ctx)))
  ∧ (∀ n v, u !! n = Some v →
            startsWith "s." n = false ∧ (n, v) ∈ getCookies (req_headers ctx)).
Proof.
  rewrite cookiesMwState_unsigned, cookiesMwState_signed.
  intros [= <-] [= <-].
  assert (∀ n, startsWith "s." n = true →
               (partition cookieKey (getCookies (req_headers ctx))).1 !! n = None)
    as Hprefixed.
  { intros n Hp.
    destruct ((partition cookieKey (getCookies (req_headers ctx))).1 !! n) eqn:E;
      [|done].
    apply unsigned_lookup_elem in E as [Hp' _]. congruence. }
  assert (∀ n v, startsWith "s." n = false → js_stores n = true →
            ((partition cookieKey (getCookies (req_headers ctx))).1 !! n = Some v
             ↔ (n, v) ∈ getCookies (req_headers ctx))) as Hverbatim.
  { intros n v Hp Hs. split; [by intros [_ ?]%unsigned_lookup_elem|].
    intros Hin. by apply unsigned_elem_lookup; [apply getCookies_NoDup| | |]. }
  split_and!.
  - intros [->|[->|(cookie & -> & Hc)]]; [done|done|].
    by rewrite (getCookies_unparsable _ Hc).
  - apply parse_pair_empty_value.
  - intros n Hin Hp Hs. by apply Hverbatim.
  - apply parse_pair_nameless.
  - intros v Hin. by apply getCookies_name in Hin.
  - destruct (_ !! "") eqn:E; [|done].
    apply unsigned_lookup_elem in E as [_ Hin]. by apply getCookies_name in Hin.
  - intros v. split.
    + intros (k & w & ? & Hin & ? & ?)%signed_lookup_elem.
      change ("s." ++ "") with "s." in Hin. eauto 6.
    + intros (k & w & -> & Hin & Hv & <-).
      by apply signed_elem_lookup; [apply getCookies_NoDup| | |].
  - intros ->. apply signed_empty_without_key.
  - done.
  - done.
  - intros n v. apply unsigned_lookup_elem.
Qed.

End EdgeCases.

(** ** Round trip through the codec *)

Section RoundTrip.
Context {K : Type} {Host : JsHost} (M : Mac K) {L : MacLaws M}.

(** C4, as the code has it.  Over a lawful MAC, decoding what [encode]
    produced under the same key gives the value back; and the cookie
    [setSignedCookie] writes for a value, read by the partitioner under
    the same key, is in the signed record under its name with that
    value, for every name the host stores (any name but [__proto__]
    where the accessor is there). *)
Theorem signed_cookie_round_trip (v : string) (k : K) :
  Codec.decode (Codec.encode v k) k = Some v
  ∧ ∀ (st : State K) (headers : Headers) (cookie : Cookie),
      value cookie = v → COOKIE_KEY st = Some k →
      startsWith "s." (name cookie) = false →
      js_stores (name cookie) = true →
      ∃ c, setSignedCookie st headers cookie = Ok (headers ++ [c])%list
           ∧ (partition (Some k) [(name c, value c)]).2 !! name cookie
             = Some v.
Proof.
  split; [exact (decode_encode M v k)|].
  intros st headers cookie <- Hk Hp Hs. unfold setSignedCookie, stdSetCookie.
  rewrite Hp, Hk. eexists. split; [done|]. simpl.
  etrans.
  - apply (signed_elem_lookup k _ (name cookie) (Codec.encode (value cookie) k)).
    + apply NoDup_singleton.
    + by apply list_elem_of_singleton.
    + apply (verify_signCookie (Api := codec M)).
    + done.
  - f_equal. apply (parse_signCookie (Api := codec M)).
Qed.

End RoundTrip.

(** ** What the signed record exposes *)

Section Integrity.
Context {K : Type} {Host : JsHost} (M : Mac K).
Context {L : MacLaws M} {U : MacUnforgeable M}.
Implicit Types (cookies : list (string * string)) (n v w : string).

(** C2. Over an ideal MAC and with key [k] configured: every entry
    [n -> v] of the signed record comes from a request cookie named
    ["s." + n] whose wire value verified under [k] and is what [encode]
    produces for [v] under [k]; a wire value produced under another key
    does not decode, nor does a wire value that is no encoding under
    [k], a mutated one for instance; and a name all of whose wire values
    are of these two kinds has no entry.  Without a key the signed
    record is empty. *)
Theorem signed_record_only_verified (k : K) cookies n :
  (∀ v, (partition (Some k) cookies).2 !! n = Some v →
        ∃ w, ("s." ++ n, w) ∈ cookies
             ∧ verifySignedCookie w k = true ∧ w = Codec.encode v k)
  ∧ (∀ v' k', k' ≠ k → Codec.decode (Codec.encode v' k') k = None)
  ∧ (∀ w, (∀ p, w ≠ Codec.encode p k) → Codec.decode w k = None)
  ∧ ((∀ w, ("s." ++ n, w) ∈ cookies →
           (∃ v' k', k' ≠ k ∧ w = Codec.encode v' k')
           ∨ (∀ p, w ≠ Codec.encode p k)) →
     (partition (Some k) cookies).2 !! n = None)
  ∧ (partition None cookies).2 = ∅.
Proof.
  assert (∀ w, (∀ p, w ≠ Codec.encode p k) → Codec.decode w k = None)
    as Hmutated.
  { intros w Hw. destruct (Codec.decode w k) as [p|] eqn:E; [|done].
    by destruct (Hw p (decode_Some_inv M w p k E)). }
  assert (∀ v, (partition (Some k) cookies).2 !! n = Some v →
               ∃ w, ("s." ++ n, w) ∈ cookies
                    ∧ verifySignedCookie w k = true ∧ w = Codec.encode v k)
    as Hsound.
  { intros v (k' & w & [= <-] & Hin & Hv & Hparse)%signed_lookup_elem.
    exists w. split_and!; [done..|]. simpl in Hv, Hparse.
    destruct (Codec.decode w k) as [p|] eqn:E; [|done].
    apply (decode_Some_inv M) in E as ->. unfold Codec.encode in Hparse.
    change ("." ++ sign p k) with (String "." (sign p k)) in Hparse.
    rewrite split_last_app in Hparse by apply sign_no_delim.
    by subst p. }
  split_and!; [done| |done| |apply signed_empty_without_key].
  - intros v' k' Hk. by apply (decode_other_key M).
  - intros Hbad.
    destruct ((partition (Some k) cookies).2 !! n) as [v|] eqn:E; [|done].
    destruct (Hsound v eq_refl) as (w & Hin & Hv & ->). simpl in Hv.
    destruct (Hbad _ Hin) as [(v' & k' & Hk & Hw)|Hw].
    + rewrite Hw, (decode_other_key M) in Hv; done.
    + by rewrite (Hmutated _ Hw) in Hv.
Qed.

End Integrity.

(** ** The code on concrete requests *)

Section OnTheCode.
Context {Host : JsHost}.

(** C1, on the code.  The request carries only [s.foo], signed under the
    configured key: the signed record is [foo -> v], the unsigned one is
    empty, and [deleteCookie] for [foo] appends nothing, since it looks
    for the key [s.foo] in a record keyed by stripped names.  When the
    request carries both [foo] and [s.foo], it appends the expiry of
    [foo] alone. *)
Theorem deleteCookie_misses_signed_cookie :
  signedCookies
    (cookiesMwState (demo_ctx (Some ("s.foo=" ++ Codec.encode "v" "K")))
       (Some "K")) = Some {["foo" := "v"]}
  ∧ unsignedCookies
      (cookiesMwState (demo_ctx (Some ("s.foo=" ++ Codec.encode "v" "K")))
         (Some "K")) = Some ∅
  ∧ deleteCookie
      (cookiesMwState (demo_ctx (Some ("s.foo=" ++ Codec.encode "v" "K")))
         (Some "K")) [] "foo" None = Ok []
  ∧ deleteCookie
      (cookiesMwState
         (demo_ctx (Some ("foo=1; s.foo=" ++ Codec.encode "v" "K")))
         (Some "K")) [] "foo" None
    = Ok [mkCookie "foo" "" (Some 0%Z) None None None None None None None].
Proof. by vm_compute. Qed.

End OnTheCode.

(** C3, as stated, fails: a tampered [s.x] after a genuine [s.x] in the
    header takes its place in the parsed record, and the signed record
    is empty; with the tampered pair removed it is [x -> v]. *)
Lemma forged_duplicate_shadows_genuine :
  verifySignedCookie "v.h000" "K" = false
  ∧ signedCookies
      (cookiesMwState
         (demo_ctx (Some ("s.x=" ++ Codec.encode "v" "K" ++ "; s.x=v.h000")))
         (Some "K")) = Some ∅
  ∧ signedCookies
      (cookiesMwState (demo_ctx (Some ("s.x=" ++ Codec.encode "v" "K")))
         (Some "K")) = Some {["x" := "v"]}.
Proof. by vm_compute. Qed.

(** C4, as stated, fails on a host with the [__proto__] accessor: the
    cookie [setSignedCookie] writes for the name [__proto__] is not in
    the signed record when read back. *)
Lemma proto_cookie_not_read_back :
  setSignedCookie (mkState None None (Some "K")) []
    (plain_cookie "__proto__" "v")
  = Ok [plain_cookie "s.__proto__" (Codec.encode "v" "K")]
  ∧ verifySignedCookie (Codec.encode "v" "K") "K" = true
  ∧ (partition (H := node) (Some "K")
       [("s.__proto__", Codec.encode "v" "K")]).2 = ∅.
Proof. by vm_compute. Qed.

(** C8, as stated, fails: a verified cookie named ["s."] lands in the
    signed record under the empty name; and on a host with the
    [__proto__] accessor the pair [__proto__=x] is an entry of the
    parsed header that is not inserted in the unsigned record. *)
Lemma empty_signed_name_and_proto_pair :
  (partition (Some "K") (getCookies (Some ("s.=" ++ Codec.encode "v" "K")))).2
    !! "" = Some "v"
  ∧ getCookies (Some "__proto__=x") = [("__proto__", "x")]
  ∧ (partition (H := node) (Some "K") (getCookies (Some "__proto__=x"))).1 = ∅.
Proof. by vm_compute. Qed.

(** C5, as stated, fails: with [foo] and a verified [s.foo] in the
    request, [foo] is a key of both records. *)
Lemma records_can_share_a_key :
  (partition (Some "K") [("foo", "1"); ("s.foo", Codec.encode "v" "K")]).1
    !! "foo" = Some "1"
  ∧ (partition (Some "K") [("foo", "1"); ("s.foo", Codec.encode "v" "K")]).2
    !! "foo" = Some "v".
Proof. by vm_compute. Qed.

(** An [s.b] signed under the key [M] next to a genuine [s.a], with the
    key [K] configured: [b] has no entry. *)
Lemma signed_record_only_verified_witness :
  (partition (Some "K")
     [("s.a", Codec.encode "v" "K"); ("s.b", Codec.encode "admin" "M")]).2
    !! "b" = None
  ∧ Codec.decode (Codec.encode "admin" "M") "K" = None.
Proof.
  destruct (signed_record_only_verified demo_mac "K"
              [("s.a", Codec.encode "v" "K");
               ("s.b", Codec.encode "admin" "M")] "b")
    as (_ & H2 & _ & H4 & _).
  split; [|by apply H2].
  apply H4. intros w Hin.
  apply elem_of_cons in Hin as [[=]|Hin].
  apply list_elem_of_singleton in Hin as [= ->].
  left. by exists "admin", "M".
Defined.

(** The header with a tampered [s.x] and the header without it. *)
Lemma forged_cookie_as_if_absent_witness :
  cookiesMwState (demo_ctx (Some "a=1; s.x=v.h000; b=2")) (Some "K")
  = cookiesMwState (demo_ctx (Some "a=1; b=2")) (Some "K")
  ∧ cookiesMwImpl (demo_ctx (Some "a=1; s.x=v.h000; b=2")) (Some "K")
    = cookiesMwImpl (demo_ctx (Some "a=1; b=2")) (Some "K")
  ∧ cookiesMwImpl (demo_ctx (Some "a=1; s.x=v.h000; b=2")) (Some "K")
    = mkState (Some {["a" := "1"; "b" := "2"]}) (Some ∅) (Some "K").
Proof.
  destruct (forged_cookie_as_if_absent
              (demo_ctx (Some "a=1; s.x=v.h000; b=2"))
              (demo_ctx (Some "a=1; b=2"))
              (Some "K") [("a", "1")] [("b", "2")] "s.x" "v.h000")
    as (H1 & H2 & H3); try reflexivity.
  - by intros k [= <-].
  - split; [exact H1|]. split; [exact H2|]. rewrite H3. by vm_compute.
Defined.

(** The round trip over the stand-in MAC. *)
Lemma signed_cookie_round_trip_witness :
  Codec.decode (Codec.encode "abc123" "K") "K" = Some "abc123"
  ∧ ∃ c, setSignedCookie (mkState None None (Some "K")) []
           (plain_cookie "session_id" "abc123") = Ok [c]
         ∧ (partition (Some "K") [(name c, value c)]).2 !! "session_id"
           = Some "abc123".
Proof.
  destruct (signed_cookie_round_trip demo_mac "abc123" "K") as [H1 H2].
  split; [exact H1|].
  apply (H2 (mkState None None (Some "K")) []
            (plain_cookie "session_id" "abc123")); reflexivity.
Defined.

(** [foo] and a genuine [s.foo]: the wire name [s.foo] is no unsigned key. *)
Lemma records_from_disjoint_cookies_witness :
  startsWith "s." "foo" = false
  ∧ (partition (Some "K") [("foo", "1"); ("s.foo", Codec.encode "v" "K")]).1
    !! "s.foo" = None.
Proof.
  destruct (records_from_disjoint_cookies (Some "K")
              [("foo", "1"); ("s.foo", Codec.encode "v" "K")] "foo")
    as [H1 H2].
  split.
  - apply H1. by exists "1".
  - apply H2. by exists "v".
Defined.

(** The names [s.foo] and [theme]. *)
Lemma writers_refuse_reserved_prefix_witness :
  setUnsignedCookie [] (plain_cookie "s.foo" "x") = Throw ReservedNameError
  ∧ setSignedCookie (mkState None None (Some "K")) [] (plain_cookie "s.foo" "x")
    = Throw ReservedNameError
  ∧ setUnsignedCookie [] (plain_cookie "theme" "dark")
    = Ok [plain_cookie "theme" "dark"].
Proof.
  destruct (writers_refuse_reserved_prefix (mkState None None (Some "K")) []
              (plain_cookie "s.foo" "x")) as [[H1 H2] _]; [reflexivity|].
  destruct (writers_refuse_reserved_prefix (mkState None None (Some "K")) []
              (plain_cookie "theme" "dark")) as [_ H3].
  split; [exact H1|]. split; [exact H2|]. apply H3. reflexivity.
Defined.

(** Writing [session_id] without and with a key in the state. *)
Lemma setSignedCookie_spec_witness :
  setSignedCookie (mkState (CryptoKey := string) None None None) []
    (plain_cookie "session_id" "abc123") = Throw MissingKeyError
  ∧ ∃ c, setSignedCookie (mkState None None (Some "K")) []
           (plain_cookie "session_id" "abc123") = Ok [c]
         ∧ name c = "s.session_id"
         ∧ value c = Codec.encode "abc123" "K".
Proof.
  destruct (setSignedCookie_spec (mkState (CryptoKey := string) None None None) []
              (plain_cookie "session_id" "abc123") eq_refl) as [H1 _].
  destruct (setSignedCookie_spec (mkState None None (Some "K")) []
              (plain_cookie "session_id" "abc123") eq_refl) as [_ H2].
  split; [by apply H1|].
  destruct (H2 "K" eq_refl) as (c & Hc & Hn & Hv & _).
  exists c. by split_and!.
Defined.

(** A header with an empty value, a nameless pair and a prefixed pair,
    no key configured. *)
Lemma partitioner_edge_cases_witness :
  ({["empty_cookie" := ""; "valid_cookie" := "value"]} : gmap string string)
    !! "empty_cookie" = Some ""
  ∧ parse_pair "=no_name" = None
  ∧ (("", "no_name")
     ∉ getCookies (Some "empty_cookie=; =no_name; s.x=v.h000; valid_cookie=value"))
  ∧ ({["empty_cookie" := ""; "valid_cookie" := "value"]} : gmap string string)
    !! "s.x" = None.
Proof.
  destruct (partitioner_edge_cases
              (demo_ctx (Some "empty_cookie=; =no_name; s.x=v.h000; valid_cookie=value"))
              None ({["empty_cookie" := ""; "valid_cookie" := "value"]}) ∅)
    as (_ & _ & H3 & H4 & H5 & _ & _ & _ & H8 & _); [by vm_compute..|].
  split_and!.
  - apply H3; [|reflexivity..]. vm_compute. by left.
  - exact (H4 "no_name").
  - exact (H5 "no_name").
  - by apply H8.
Defined.

(** A second run over the re-serialized records of a first run. *)
Lemma repartition_idempotent_witness :
  partition (Some "K")
    (reserialize "K"
       (partition (Some "K")
          [("foo", "1"); ("s.foo", Codec.encode "v" "K"); ("s.bar", "w.h000")]))
  = partition (Some "K")
      [("foo", "1"); ("s.foo", Codec.encode "v" "K"); ("s.bar", "w.h000")].
Proof.
  apply (repartition_idempotent (Api := codec demo_mac) "K").
Defined.

(** * Further properties of the module *)

(** ** The loop, beyond the two records' provenance *)

Section Loop.
Context {K : Type} {Host : JsHost} `{Api : SignedCookieApi K}.
Implicit Types (cookieKey : option K) (cookies : list (string * string)).
Implicit Types (n v w : string) (acc : Maps).

(** An entry with the prefix never touches the unsigned record, an entry
    without it never touches the signed one. *)
Lemma partition_step_fst cookieKey acc e :
  (partition_step cookieKey acc e).1
  = if startsWith "s." e.1 then acc.1 else js_set (e.1) (e.2) (acc.1).
Proof.
  destruct acc as [u s], e as [key0 w]; simpl.
  destruct (startsWith "s." key0); [|done].
  by destruct cookieKey as [k|]; [destruct (verifySignedCookie w k)|].
Qed.

Lemma partition_step_snd_plain cookieKey acc e :
  startsWith "s." e.1 = false → (partition_step cookieKey acc e).2 = acc.2.
Proof. destruct acc as [u s], e as [key0 w]; simpl. by intros ->. Qed.

(** X1. For a cookie record (distinct names) and a configured key, the
    signed record holds [n -> v], under a name [n] the host stores (any
    name but [__proto__] where the accessor is there), exactly when the
    request carried a cookie ["s." + n] whose value verifies under the
    key and parses to [v]: such a verified signed cookie is never
    dropped, and nothing else is ever exposed. *)
Theorem signed_record_exact k cookies n v :
  NoDup cookies.*1 → js_stores n = true →
  (partition (Some k) cookies).2 !! n = Some v
  ↔ ∃ w, ("s." ++ n, w) ∈ cookies
         ∧ verifySignedCookie w k = true ∧ parseSignedCookie w = v.
Proof.
  intros Hnd Hs. split.
  - intros (k' & w & [= <-] & Hin & Hv & Hp)%signed_lookup_elem. eauto.
  - intros (w & Hin & Hv & <-). by apply signed_elem_lookup.
Qed.

(** X2. The two records do not interfere.  The unsigned record is the
    same whatever key is configured and whatever cookies with the
    reserved prefix the request carries (valid, forged or none); the
    signed record is the same whatever cookies without the prefix the
    request carries. *)
Theorem records_do_not_interfere cookieKey cookieKey' cookies :
  (partition cookieKey cookies).1
  = (partition cookieKey'
       (filter (λ e, startsWith "s." e.1 = false) cookies)).1
  ∧ (partition cookieKey cookies).2
    = (partition cookieKey
         (filter (λ e, startsWith "s." e.1 = true) cookies)).2.
Proof.
  induction cookies as [|e cookies [IHu IHs]] using rev_ind; [done|].
  rewrite !filter_app, !filter_cons, !filter_nil, partition_snoc.
  rewrite partition_step_fst.
  destruct (startsWith "s." e.1) eqn:Hp.
  - rewrite decide_False, decide_True, app_nil_r by done.
    split; [done|]. rewrite partition_snoc.
    destruct (partition cookieKey cookies) as [u s],
      (partition cookieKey (filter _ cookies)) as [u' s'], e as [key0 w].
    simpl in *. subst s'. rewrite Hp.
    by destruct cookieKey as [k|]; [destruct (verifySignedCookie w k)|].
  - rewrite decide_True, decide_False, app_nil_r by done.
    rewrite partition_snoc, partition_step_fst, Hp, IHu.
    split; [done|]. by rewrite partition_step_snd_plain.
Qed.

(** X3. Every cookie of the request lands in at most one record: the
    two records together never hold more entries than the request has
    cookies. *)
Theorem records_size_bound cookieKey cookies :
  (size (partition cookieKey cookies).1 + size (partition cookieKey cookies).2
   ≤ length cookies)%nat.
Proof.
  induction cookies as [|[key0 w] cookies IH] using rev_ind; [done|].
  rewrite partition_snoc, length_app. cbn [length].
  destruct (partition cookieKey cookies) as [u s].
  unfold partition_step. cbn [fst snd] in *.
  destruct (startsWith "s." key0).
  - destruct cookieKey as [k|]; [destruct (verifySignedCookie w k)|];
      cbn [fst snd]; try lia.
    pose proof (size_js_set (substring 2 key0) (parseSignedCookie w) s). lia.
  - cbn [fst snd]. pose proof (size_js_set key0 w u). lia.
Qed.

(** X9. No cookie of a record is lost to a collision.  With distinct
    names, all of them stored by the host once stripped of the prefix
    (none is [__proto__] or [s.__proto__] where the accessor is there),
    the unsigned record has exactly as many entries as the request has
    cookies without the prefix, and the signed record exactly as many as
    it has cookies with the prefix whose value verifies: stripping the
    prefix never maps two cookies to one key. *)
Theorem records_size_exact k cookies :
  NoDup cookies.*1 →
  (∀ e, e ∈ cookies →
        js_stores (if startsWith "s." e.1 then substring 2 e.1 else e.1) = true) →
  size (partition (Some k) cookies).1
  = length (filter (λ e, startsWith "s." e.1 = false) cookies)
  ∧ size (partition (Some k) cookies).2
    = length (filter (λ e, startsWith "s." e.1 = true
                           ∧ verifySignedCookie e.2 k = true) cookies).
Proof.
  induction cookies as [|[key0 w] cookies IH] using rev_ind; [done|].
  rewrite fmap_app. intros (Hnd & Hfresh & _)%NoDup_app Hst.
  destruct IH as [IHu IHs]; [done| |].
  { intros e He. apply Hst, elem_of_app. by left. }
  assert (∀ v, (key0, v) ∈ cookies → False) as Hnew.
  { intros v Hin. apply (Hfresh key0); [|by left].
    apply list_elem_of_fmap. by exists (key0, v). }
  assert (js_stores (if startsWith "s." key0 then substring 2 key0 else key0)
          = true) as Hkey.
  { apply (Hst (key0, w)), elem_of_app. right. by left. }
  rewrite !filter_app, !filter_cons, !filter_nil, !length_app, partition_snoc.
  pose proof (unsigned_lookup_elem (Some k) cookies key0) as Hu.
  pose proof (signed_lookup_elem (Some k) cookies (substring 2 key0)) as Hs.
  destruct (partition (Some k) cookies) as [u s].
  unfold partition_step, js_set. cbn [fst snd] in *.
  destruct (startsWith "s." key0) eqn:Hp; rewrite Hkey.
  - rewrite decide_False by done. rewrite <- (startsWith_s_dot_inv _ Hp) in Hs.
    destruct (verifySignedCookie w k) eqn:Hv; cbn [fst snd].
    + rewrite decide_True by done. rewrite map_size_insert_None.
      * cbn [length]. lia.
      * destruct (s !! substring 2 key0) as [v|] eqn:E; [|done].
        destruct (Hs v eq_refl) as (_ & w' & _ & Hin & _).
        by destruct (Hnew w').
    + rewrite decide_False by (by intros [_ ?]). cbn [length]. lia.
  - rewrite decide_True, decide_False by (done || by intros [? _]).
    cbn [fst snd length]. rewrite map_size_insert_None; [lia|].
    destruct (u !! key0) as [v|] eqn:E; [|done].
    destruct (Hu v eq_refl) as [_ Hin]. by destruct (Hnew v).
Qed.

End Loop.

(** ** The middleware with the writers and the deleter *)

Section Handlers.
Context {K R : Type} {Host : JsHost} `{Api : SignedCookieApi K}.
Implicit Types (ctx : Context K R) (cookieKey : option K) (st : State K).
Implicit Types (headers : Headers) (cookie : Cookie) (n v w : string).

(** X5. The key [setSignedCookie] signs with after the middleware.  With
    a key configured it is that key, whatever key an earlier middleware
    left in the state.  Without one, [setSignedCookie] fails with the
    missing-key error on a state that held no key; but when an earlier
    middleware left a key, the keyless run keeps it: the signed record
    handlers see is empty and [setSignedCookie] still signs, with the
    earlier key. *)
Theorem key_slot_after_middleware ctx headers cookie :
  startsWith "s." (name cookie) = false →
  (∀ k, ∃ c, setSignedCookie (cookiesMwState ctx (Some k)) headers cookie
             = Ok (headers ++ [c])%list
             ∧ value c = signCookie (value cookie) k)
  ∧ (COOKIE_KEY (state ctx) = None →
     setSignedCookie (cookiesMwState ctx None) headers cookie
     = Throw MissingKeyError)
  ∧ (∀ k0, COOKIE_KEY (state ctx) = Some k0 →
       signedCookies (cookiesMwState ctx None) = Some ∅
       ∧ ∃ c, setSignedCookie (cookiesMwState ctx None) headers cookie
              = Ok (headers ++ [c])%list
              ∧ value c = signCookie (value cookie) k0).
Proof.
  intros Hp. unfold setSignedCookie, stdSetCookie. rewrite Hp.
  rewrite cookiesMwState_signed, signed_empty_without_key.
  split_and!.
  - intros k. rewrite cookiesMwState_key. by eexists.
  - intros Hk. by rewrite cookiesMwState_key, Hk.
  - intros k0 Hk. rewrite cookiesMwState_key, Hk. split; [done|]. by eexists.
Qed.

(** X6. What the two writers put on a response reads back on the next
    request.  If [setUnsignedCookie] for [a] and then [setSignedCookie]
    for [b] succeed, exactly two entries were appended, and, when the
    host stores both names (any name but [__proto__] where the accessor
    is there), partitioning these two under the same key gives [a] in
    the unsigned record and [b] in the signed one, each under its own
    name with its own value, also when [a] and [b] have the same name. *)
Theorem written_cookies_read_back {Laws : SignedCookieLaws Api}
    st headers (a b : Cookie) k (h1 h2 : Headers) :
  COOKIE_KEY st = Some k →
  setUnsignedCookie headers a = Ok h1 →
  setSignedCookie st h1 b = Ok h2 →
  js_stores (name a) = true → js_stores (name b) = true →
  ∃ ca cb, h2 = (headers ++ [ca; cb])%list
           ∧ partition (Some k) [(name ca, value ca); (name cb, value cb)]
             = ({[name a := value a]}, {[name b := value b]}).
Proof.
  intros Hk. unfold setUnsignedCookie, setSignedCookie, stdSetCookie.
  destruct (startsWith "s." (name a)) eqn:Ha; [done|].
  destruct (startsWith "s." (name b)) eqn:Hb; [done|].
  rewrite Hk. intros [= <-] [= <-] Hsa Hsb. eexists _, _.
  split; [by rewrite <- app_assoc|].
  unfold partition; cbn [foldl partition_step name value].
  rewrite Ha. unfold partition_step.
  rewrite startsWith_s_dot, verify_signCookie, parse_signCookie.
  rewrite substring_s_dot. unfold js_set. by rewrite Hsa, Hsb, !insert_empty.
Qed.

(** X7. [deleteCookie] only ever appends: the entries already in the
    headers stay, in order, and at most two entries are added, each the
    expiry that the std [deleteCookie] writes (empty value, expiring at
    the epoch, the given attributes), for the name or for the name with
    the prefix. *)
Theorem deleteCookie_only_appends_expiries st headers n attributes headers' :
  deleteCookie st headers n attributes = Ok headers' →
  ∃ extra, headers' = (headers ++ extra)%list
           ∧ (length extra ≤ 2)%nat
           ∧ ∀ c, c ∈ extra →
                  (name c = n ∨ name c = "s." ++ n)
                  ∧ value c = "" ∧ expires c = Some 0%Z
                  ∧ domain c = attributes ≫= del_domain
                  ∧ path c = attributes ≫= del_path
                  ∧ secure c = attributes ≫= del_secure
                  ∧ httpOnly c = attributes ≫= del_httpOnly
                  ∧ partitioned c = attributes ≫= del_partitioned.
Proof.
  unfold deleteCookie, stdDeleteCookie, stdSetCookie.
  destruct (unsignedCookies st) as [u|]; [|done].
  destruct (signedCookies st) as [s|];
    [destruct (js_in ("s." ++ n) s)|]; destruct (js_in n u);
    intros [= <-]; rewrite <- ?app_assoc;
    (eexists; split; [try done; by rewrite app_nil_r|]);
    (split; [simpl; lia|]);
    intros c Hc; repeat (apply elem_of_cons in Hc as [->|Hc]);
    try (by apply elem_of_nil in Hc); simpl; by split_and!; auto.
Qed.

Lemma expiry_elem (b : bool) n attributes (c : Cookie) :
  c ∈ (if b then stdDeleteCookie [] n attributes else []) →
  b = true ∧ name c = n.
Proof.
  destruct b; [|by intros ?%elem_of_nil].
  by intros ->%list_elem_of_singleton.
Qed.

Lemma expiry_exists n attributes :
  ∃ c, c ∈ stdDeleteCookie [] n attributes ∧ name c = n.
Proof. eexists. split; [by left|done]. Qed.

(** X8. Which cookies [deleteCookie] expires after the middleware ran.
    An entry it appends is either for its argument [n], and then [n] has
    no prefix and the request carried the cookie [n], or [n] is a name
    every object inherits on the host ([toString], [constructor], ...),
    which is expired whether sent or not; or it is for ["s." + n], and
    then the request carried a cookie ["s.s." + n] that verified under
    the configured key.  So the signed cookie ["s." + n] of a request is
    expired by no call unless the request also carries a verified
    ["s.s." + n].  Conversely the cookie [n] of the request, when [n]
    has no prefix, is always expired. *)
Theorem deleteCookie_after_middleware ctx cookieKey headers n attributes :
  ∃ extra,
    deleteCookie (cookiesMwState ctx cookieKey) headers n attributes
    = Ok (headers ++ extra)%list
    ∧ (∀ c, c ∈ extra →
          (name c = n
           ∧ ((startsWith "s." n = false
               ∧ ∃ v, (n, v) ∈ getCookies (req_headers ctx))
              ∨ js_inherited n = true))
          ∨ (name c = "s." ++ n
             ∧ ∃ k w, cookieKey = Some k
                      ∧ ("s." ++ ("s." ++ n), w) ∈ getCookies (req_headers ctx)
                      ∧ verifySignedCookie w k = true))
    ∧ (∀ v, (n, v) ∈ getCookies (req_headers ctx) →
            startsWith "s." n = false →
            ∃ c, c ∈ extra ∧ name c = n)
    ∧ (js_inherited n = true → ∃ c, c ∈ extra ∧ name c = n).
Proof.
  set (u := (partition cookieKey (getCookies (req_headers ctx))).1).
  set (s := (partition cookieKey (getCookies (req_headers ctx))).2).
  exists ((if js_in n u then stdDeleteCookie [] n attributes else [])
          ++ (if js_in ("s." ++ n) s
              then stdDeleteCookie [] ("s." ++ n) attributes else []))%list.
  split.
  { apply deleteCookie_emits;
      [apply cookiesMwState_unsigned|apply cookiesMwState_signed]. }
  assert (js_in n u = true → ∃ c,
            c ∈ ((if js_in n u then stdDeleteCookie [] n attributes else [])
                 ++ (if js_in ("s." ++ n) s
                     then stdDeleteCookie [] ("s." ++ n) attributes
                     else []))%list ∧ name c = n) as Hplain.
  { intros ->. destruct (expiry_exists n attributes) as (c & ? & ?).
    exists c. split; [|done]. apply elem_of_app. by left. }
  split_and!.
  - intros c [[Hin ->]%expiry_elem|[Hin ->]%expiry_elem]%elem_of_app.
    + left. split; [done|]. unfold js_in in Hin.
      apply orb_true_iff in Hin as [Hu|Hi]; [left|by right].
      apply bool_decide_eq_true in Hu as [v [? ?]%unsigned_lookup_elem]. eauto.
    + right. split; [done|]. rewrite js_in_s_dot in Hin.
      apply bool_decide_eq_true in Hin
        as [v (k & w & ? & ? & ? & _)%signed_lookup_elem]. eauto 6.
  - intros v Hin Hp. apply Hplain. unfold js_in.
    destruct (js_stores n) eqn:Hs.
    + apply orb_true_iff. left. apply bool_decide_eq_true. exists v.
      by apply unsigned_elem_lookup; [apply getCookies_NoDup| | |].
    + apply orb_true_iff. right. by apply js_stores_or_inherited.
  - intros Hi. apply Hplain. unfold js_in. apply orb_true_iff. by right.
Qed.

End Handlers.

(** ** The further properties on concrete requests *)

(** A genuine [s.foo] next to [foo]: the signed record has [foo -> v]. *)
Lemma signed_record_exact_witness :
  (partition (Some "K") [("foo", "1"); ("s.foo", Codec.encode "v" "K")]).2
    !! "foo" = Some "v".
Proof.
  apply (signed_record_exact "K"
           [("foo", "1"); ("s.foo", Codec.encode "v" "K")] "foo" "v").
  - refine (bool_decide_unpack _ _). by vm_compute.
  - reflexivity.
  - exists (Codec.encode "v" "K"). split; [|by vm_compute].
    right. by left.
Defined.

(** The same record listed with the integer-like name first. *)
Lemma partition_order_irrelevant_witness :
  partition (Some "K")
    [("foo", "1"); ("s.foo", Codec.encode "v" "K"); ("7", "x")]
  = partition (Some "K")
      [("7", "x"); ("foo", "1"); ("s.foo", Codec.encode "v" "K")].
Proof.
  apply (partition_order_irrelevant (Some "K")).
  - refine (bool_decide_unpack _ _). by vm_compute.
  - symmetry. apply Permutation_cons_append with (l := [_; _]).
Defined.

(** A keyless run on a state in which an earlier run left the key [K0]. *)
Lemma key_slot_after_middleware_witness :
  signedCookies
    (cookiesMwState
       (mkContext (Response := unit) (Some "a=1")
          (mkState None None (Some "K0")) (λ _, tt)) None) = Some ∅
  ∧ ∃ c, setSignedCookie
           (cookiesMwState
              (mkContext (Response := unit) (Some "a=1")
                 (mkState None None (Some "K0")) (λ _, tt)) None)
           [] (plain_cookie "session_id" "abc123") = Ok ([] ++ [c])%list
         ∧ value c = Codec.encode "abc123" "K0".
Proof.
  destruct (key_slot_after_middleware
              (mkContext (Response := unit) (Some "a=1")
                 (mkState None None (Some "K0")) (λ _, tt))
              [] (plain_cookie "session_id" "abc123") eq_refl)
    as (_ & _ & H).
  exact (H "K0" eq_refl).
Defined.

(** [theme] written unsigned and signed on the same response. *)
Lemma written_cookies_read_back_witness :
  ∃ ca cb,
    [plain_cookie "theme" "dark";
     plain_cookie "s.theme" (Codec.encode "blue" "K")]
    = ([] ++ [ca; cb])%list
    ∧ partition (Some "K") [(name ca, value ca); (name cb, value cb)]
      = ({["theme" := "dark"]}, {["theme" := "blue"]}).
Proof.
  apply (written_cookies_read_back (Api := codec demo_mac)
           (mkState None None (Some "K")) []
           (plain_cookie "theme" "dark") (plain_cookie "theme" "blue") "K"
           [plain_cookie "theme" "dark"]); reflexivity.
Defined.

(** Deleting [foo] when the request carried [foo] and a genuine [s.foo]. *)
Lemma deleteCookie_only_appends_expiries_witness :
  ∃ extra,
    [plain_cookie "x" "y";
     mkCookie "foo" "" (Some 0%Z) None None None None None None None]
    = ([plain_cookie "x" "y"] ++ extra)%list
    ∧ (length extra ≤ 2)%nat.
Proof.
  destruct (deleteCookie_only_appends_expiries
              (cookiesMwState
                 (demo_ctx (Some ("foo=1; s.foo=" ++ Codec.encode "v" "K")))
                 (Some "K"))
              [plain_cookie "x" "y"] "foo" None
              [plain_cookie "x" "y";
               mkCookie "foo" "" (Some 0%Z) None None None None None None None]
              ltac:(by vm_compute))
    as (extra & H1 & H2 & _).
  by exists extra.
Defined.

(** Deleting [foo] when the request carried a genuine [s.s.foo] only:
    the entry appended is for [s.foo]. *)
Lemma deleteCookie_after_middleware_witness :
  ∃ extra,
    deleteCookie
      (cookiesMwState
         (demo_ctx (Some ("s.s.foo=" ++ Codec.encode "v" "K"))) (Some "K"))
      [] "foo" None = Ok ([] ++ extra)%list
    ∧ deleteCookie
        (cookiesMwState
           (demo_ctx (Some ("s.s.foo=" ++ Codec.encode "v" "K"))) (Some "K"))
        [] "foo" None
      = Ok [mkCookie "s.foo" "" (Some 0%Z) None None None None None None None].
Proof.
  destruct (deleteCookie_after_middleware
              (demo_ctx (Some ("s.s.foo=" ++ Codec.encode "v" "K")))
              (Some "K") [] "foo" None) as (extra & H & _).
  exists extra. split; [exact H|]. by vm_compute.
Defined.

(** Two cookies without the prefix, one genuine and one tampered cookie
    with it. *)
Lemma records_size_exact_witness :
  size (partition (Some "K")
          [("a", "1"); ("s.a", Codec.encode "v" "K"); ("b", "2");
           ("s.b", "w.h000")]).1 = 2
  ∧ size (partition (Some "K")
            [("a", "1"); ("s.a", Codec.encode "v" "K"); ("b", "2");
             ("s.b", "w.h000")]).2 = 1.
Proof.
  destruct (records_size_exact "K"
              [("a", "1"); ("s.a", Codec.encode "v" "K"); ("b", "2");
               ("s.b", "w.h000")]) as [H1 H2].
  - refine (bool_decide_unpack _ _). by vm_compute.
  - intros e He. by apply js_stores_no_accessor.
  - split; [rewrite H1|rewrite H2]; by vm_compute.
Defined.
